(** * Session Viewer (frontend/src/main.ts)

    A shallow embedding of the viewer script: the page's DOM regions, the
    URL lookup of the session identifier, the asynchronous [main] routine
    with its [try]/[catch], the SDK event handlers, the two timers and the
    unload handler.

    Conventions of the embedding.
    - JavaScript strings are [string]; [null] and [undefined] results of
      lookups are [None]; JSON scalars found in a session record are
      [value]s, with JavaScript truthiness and strict equality.
    - Everything outside the script (the browser's [URLSearchParams]
      parser, [fetch], the backend's answer, [requestFullscreen], the
      outcome of [video.play()], the SDK's events) is input: [Env] for the
      initialisation, [Event] afterwards.
    - The script's effects on the outside are recorded, in order, in the
      world's [log]; [console.*] calls are not recorded.
    - [await] is sequential composition: the routine runs to completion,
      and the world's clock starts when it has. *)

From Stdlib Require Import String Ascii List Bool NArith ZArith Lia.
Import ListNotations.
Open Scope string_scope.

(** ** JavaScript values and strings *)

Module Js.

(** The JSON scalars a session record's field can hold; [VUndefined] is an
    absent field. *)
Inductive value : Type :=
| VUndefined
| VNull
| VBool (b : bool)
| VNumber (n : Z)
| VString (s : string).

(** [!!v] *)
Definition truthy (v : value) : bool :=
  match v with
  | VUndefined | VNull => false
  | VBool b => b
  | VNumber n => negb (n =? 0)%Z
  | VString s => negb (s =? "")
  end.

(** [v === s] for a string [s] *)
Definition strict_eq_string (v : value) (s : string) : bool :=
  match v with
  | VString t => t =? s
  | _ => false
  end.

(** [a || b] on nullable strings: [a] when it is truthy, else [b]. *)
Definition or_else (a b : option string) : option string :=
  match a with
  | Some s => if s =? "" then b else Some s
  | None => b
  end.

(** [!!a] for a nullable string. *)
Definition truthy_string (a : option string) : bool :=
  match a with
  | Some s => negb (s =? "")
  | None => false
  end.

(** [hay.includes(needle)] *)
Fixpoint includes (needle hay : string) : bool :=
  if String.prefix needle hay then true
  else match hay with
       | EmptyString => false
       | String _ rest => includes needle rest
       end.

(** A thrown value, as the [catch] handler reads it: its [message]
    property, [None] when the property is undefined. *)
Record Error : Type := { message : option string }.

Definition new_Error (msg : string) : Error := {| message := Some msg |}.

End Js.
Import Js.

(** ** The page *)

(** A media stream handed over by the SDK, with the tracks the unload
    handler stops. *)
Record MediaStream : Type := { stream_id : N; tracks : list N }.

(** The three regions of the page ([#loading], [#avatarVideo], [#error]),
    by the properties the script writes: the inline [style.display] of each,
    the error region's text, and the video element's [srcObject] and its two
    callbacks (set or not: the script installs one closure for each). *)
Record Dom : Type := {
  loading_display : string;
  video_display : string;
  error_display : string;
  error_textContent : string;
  srcObject : option MediaStream;
  onloadedmetadata : bool;
  onerror : bool
}.

(** A region is hidden when its display is ["none"]. *)
Definition visible (display : string) : bool := negb (display =? "none").

Definition showVideo (d : Dom) : Dom :=
  {| loading_display := "none";
     video_display := "block";
     error_display := "none";
     error_textContent := error_textContent d;
     srcObject := srcObject d;
     onloadedmetadata := onloadedmetadata d;
     onerror := onerror d |}.

Definition showError (msg : string) (d : Dom) : Dom :=
  {| loading_display := "none";
     video_display := "none";
     error_display := "block";
     error_textContent := msg;
     srcObject := srcObject d;
     onloadedmetadata := onloadedmetadata d;
     onerror := onerror d |}.

Definition set_srcObject (o : option MediaStream) (d : Dom) : Dom :=
  {| loading_display := loading_display d;
     video_display := video_display d;
     error_display := error_display d;
     error_textContent := error_textContent d;
     srcObject := o;
     onloadedmetadata := onloadedmetadata d;
     onerror := onerror d |}.

Definition set_video_callbacks (d : Dom) : Dom :=
  {| loading_display := loading_display d;
     video_display := video_display d;
     error_display := error_display d;
     error_textContent := error_textContent d;
     srcObject := srcObject d;
     onloadedmetadata := true;
     onerror := true |}.

(** The UI state read off the three regions: defined when exactly one of
    them is visible. *)
Inductive UIState : Type := Loading | Playing | Failed.

Definition ui_state (d : Dom) : option UIState :=
  match visible (loading_display d), visible (video_display d),
        visible (error_display d) with
  | true, false, false => Some Loading
  | false, true, false => Some Playing
  | false, false, true => Some Failed
  | _, _, _ => None
  end.

(** ** The session identifier *)

(** [URLSearchParams]: the parsed query, name and value pairs in the order
    of the query string. *)
Definition URLSearchParams : Type := list (string * string).

(** [params.get(name)]: the first value under [name], [null] when there is
    none. *)
Fixpoint get (params : URLSearchParams) (name : string) : option string :=
  match params with
  | [] => None
  | (k, v) :: rest => if k =? name then Some v else get rest name
  end.

Definition sessionId (params : URLSearchParams) : option string :=
  or_else (get params "local_session_id") (get params "session_id").

(** ** The backend's answer and the other inputs of the initialisation *)

(** A record of the sessions list: the two identifier aliases and the
    access token. *)
Record Session : Type := {
  local_session_id : value;
  session_id : value;
  access_token : value
}.

(** The response body; [active_sessions] is [None] when the field is absent
    or null (where [?.] stops). *)
Record Data : Type := { active_sessions : option (list Session) }.

Inductive JsonOutcome : Type :=
| JsonRejects (err : Error)
| JsonResolves (data : Data).

Record Response : Type := {
  ok : bool;
  statusText : string;
  json : JsonOutcome
}.

Inductive FetchOutcome : Type :=
| FetchRejects (err : Error)
| FetchResolves (res : Response).

(** [document.documentElement.requestFullscreen?.()]: the method may be
    missing, and the promise it returns may reject. *)
Inductive FullscreenOutcome : Type :=
| FullscreenAbsent
| FullscreenResolves
| FullscreenRejects (err : Error).

Record Env : Type := {
  fetch_outcome : FetchOutcome;
  fullscreen_outcome : FullscreenOutcome
}.

(** ** The world the script runs in *)

Inductive StreamingEvents : Type :=
| STREAM_READY
| STREAM_DISCONNECTED
| AVATAR_START_TALKING
| AVATAR_STOP_TALKING
| ERROR.

(** The two closures the script passes to [setTimeout]. *)
Inductive TimerCallback : Type :=
| ConnectionCheck
| CloseWindow.

Record Timer : Type := { due : N; callback : TimerCallback }.

Inductive Effect : Type :=
| Fetch (url : string)
| RequestFullscreen
| NewStreamingAvatar (token : value)
| AvatarOn (ev : StreamingEvents)
| SetTimeout (cb : TimerCallback) (delay : N)
| VideoPlay
| TrackStop (track : N)
| WindowClose.

Record World : Type := {
  dom : Dom;
  avatar : option value;            (* the client handle, by its token *)
  listeners : list StreamingEvents; (* the events [avatar.on] was called for *)
  beforeunload : bool;              (* the unload listener is installed *)
  timers : list Timer;              (* pending, earliest first *)
  now : N;                          (* milliseconds *)
  log : list Effect;
  uncaught : option Error           (* the script stopped on this *)
}.

Definition load (page : Dom) : World :=
  {| dom := page; avatar := None; listeners := []; beforeunload := false;
     timers := []; now := 0%N; log := []; uncaught := None |}.

Definition with_dom (f : Dom -> Dom) (w : World) : World :=
  {| dom := f (dom w); avatar := avatar w; listeners := listeners w;
     beforeunload := beforeunload w; timers := timers w; now := now w;
     log := log w; uncaught := uncaught w |}.

Definition emit (e : Effect) (w : World) : World :=
  {| dom := dom w; avatar := avatar w; listeners := listeners w;
     beforeunload := beforeunload w; timers := timers w; now := now w;
     log := log w ++ [e]; uncaught := uncaught w |}.

Definition set_avatar (a : option value) (w : World) : World :=
  {| dom := dom w; avatar := a; listeners := listeners w;
     beforeunload := beforeunload w; timers := timers w; now := now w;
     log := log w; uncaught := uncaught w |}.

Definition add_listener (ev : StreamingEvents) (w : World) : World :=
  {| dom := dom w; avatar := avatar w; listeners := listeners w ++ [ev];
     beforeunload := beforeunload w; timers := timers w; now := now w;
     log := log w; uncaught := uncaught w |}.

Definition set_beforeunload (w : World) : World :=
  {| dom := dom w; avatar := avatar w; listeners := listeners w;
     beforeunload := true; timers := timers w; now := now w;
     log := log w; uncaught := uncaught w |}.

Definition set_timers (q : list Timer) (t : N) (w : World) : World :=
  {| dom := dom w; avatar := avatar w; listeners := listeners w;
     beforeunload := beforeunload w; timers := q; now := t;
     log := log w; uncaught := uncaught w |}.

Definition set_uncaught (err : Error) (w : World) : World :=
  {| dom := dom w; avatar := avatar w; listeners := listeners w;
     beforeunload := beforeunload w; timers := timers w; now := now w;
     log := log w; uncaught := Some err |}.

(** The timer queue: a new timer goes behind those due no later. *)
Fixpoint enqueue (t : Timer) (q : list Timer) : list Timer :=
  match q with
  | [] => [t]
  | u :: q' => if (due u <=? due t)%N then u :: enqueue t q' else t :: q
  end.

Definition setTimeout (cb : TimerCallback) (delay : N) (w : World) : World :=
  let w' := emit (SetTimeout cb delay) w in
  set_timers (enqueue {| due := (now w + delay)%N; callback := cb |} (timers w'))
             (now w') w'.

(** ** Statements that may throw *)

Inductive Completion (A : Type) : Type :=
| Normal (a : A)
| Throw (err : Error).
Arguments Normal {A} a.
Arguments Throw {A} err.

Definition Script (A : Type) : Type := World -> Completion A * World.

Definition ret {A} (a : A) : Script A := fun w => (Normal a, w).

Definition throw {A} (err : Error) : Script A := fun w => (Throw err, w).

Definition bind {A B} (m : Script A) (k : A -> Script B) : Script B :=
  fun w =>
    match m w with
    | (Normal a, w') => k a w'
    | (Throw err, w') => (Throw err, w')
    end.

Definition try_catch {A} (body : Script A) (handler : Error -> Script A)
  : Script A :=
  fun w =>
    match body w with
    | (Normal a, w') => (Normal a, w')
    | (Throw err, w') => handler err w'
    end.

(** A statement that cannot throw. *)
Definition exec (f : World -> World) : Script unit := fun w => (Normal tt, f w).

Declare Scope script_scope.
Delimit Scope script_scope with script.
Notation "x <- m ;; k" := (bind m (fun x => k))
  (at level 61, m at next level, right associativity) : script_scope.
Notation "m ;; k" := (bind m (fun _ => k))
  (at level 61, right associativity) : script_scope.

(** ** [main] *)

Section Main.

Open Scope script_scope.

Variable sid : string.   (* the session identifier, past the guard *)
Variable env : Env.

Definition sessions_url : string := "http://localhost:3001/api/avatar/sessions".

Definition fetch (url : string) : Script Response :=
  fun w =>
    match fetch_outcome env with
    | FetchRejects err => (Throw err, emit (Fetch url) w)
    | FetchResolves res => (Normal res, emit (Fetch url) w)
    end.

Definition res_json (res : Response) : Script Data :=
  match json res with
  | JsonRejects err => throw err
  | JsonResolves data => ret data
  end.

Definition requestFullscreen : Script unit :=
  match fullscreen_outcome env with
  | FullscreenAbsent => ret tt
  | FullscreenResolves => exec (emit RequestFullscreen)
  | FullscreenRejects err => exec (emit RequestFullscreen) ;; throw err
  end.

(** The callback of [find]. *)
Definition is_session (s : Session) : bool :=
  strict_eq_string (local_session_id s) sid
  || strict_eq_string (session_id s) sid.

(** [data.active_sessions?.find(...)] *)
Definition find_session (data : Data) : option Session :=
  match active_sessions data with
  | Some sessions => find is_session sessions
  | None => None
  end.

Definition new_StreamingAvatar (token : value) : Script unit :=
  exec (fun w => set_avatar (Some token) (emit (NewStreamingAvatar token) w)).

Definition avatar_on (ev : StreamingEvents) : Script unit :=
  exec (fun w => add_listener ev (emit (AvatarOn ev) w)).

Definition connection_window : N := 300000.

(** The body of the [try] block. *)
Definition main_try : Script unit :=
  res <- fetch sessions_url ;;
  (if negb (ok res)
   then throw (new_Error ("Failed to fetch sessions: " ++ statusText res))
   else ret tt) ;;
  data <- res_json res ;;
  match find_session data with
  | None => throw (new_Error "Session not found in active sessions")
  | Some session =>
      let accessToken := access_token session in
      if negb (truthy accessToken)
      then throw (new_Error "Session found but access_token is missing")
      else
        try_catch requestFullscreen (fun _ => ret tt) ;;
        new_StreamingAvatar accessToken ;;
        avatar_on STREAM_READY ;;
        avatar_on STREAM_DISCONNECTED ;;
        avatar_on AVATAR_START_TALKING ;;
        avatar_on AVATAR_STOP_TALKING ;;
        avatar_on ERROR ;;
        exec (setTimeout ConnectionCheck connection_window)
  end.

(** [`prefix${m || 'Unknown error'}`] *)
Definition or_unknown (m : option string) : string :=
  match or_else m (Some "Unknown error") with
  | Some s => s
  | None => ""
  end.

Definition server_hint : string :=
  "Cannot connect to server. Is the backend running on localhost:3001?".

(** The text the [catch] block displays: [err.message?.includes('fetch')]
    is undefined, hence falsy, when there is no message. *)
Definition catch_text (err : Error) : string :=
  if match message err with
     | Some m => includes "fetch" m
     | None => false
     end
  then server_hint
  else "Failed to initialize avatar: " ++ or_unknown (message err).

Definition main_catch (err : Error) : Script unit :=
  exec (with_dom (showError (catch_text err))).

Definition main : Script unit := try_catch main_try main_catch.

End Main.

(** ** The script, top to bottom *)

(** The guard stops the script on a missing or empty identifier, before
    [main] is called and before the unload listener is installed. *)
Definition script (page : Dom) (params : URLSearchParams) (env : Env) : World :=
  let w := load page in
  match sessionId params with
  | Some sid =>
      if negb (sid =? "")
      then set_beforeunload (snd (main sid env w))
      else set_uncaught (new_Error "Missing session_id")
             (with_dom (showError "Missing session_id in URL.") w)
  | None =>
      set_uncaught (new_Error "Missing session_id")
        (with_dom (showError "Missing session_id in URL.") w)
  end.

(** ** Handlers *)

(** The payload of a stream-ready event: [detail] is the stream, when there
    is one. *)
Record StreamEvent : Type := { detail : option MediaStream }.

Inductive PlayOutcome : Type := PlayResolves | PlayRejects.

Definition on_stream_ready (event : option StreamEvent) (w : World) : World :=
  match event with
  | Some {| detail := Some stream |} =>
      with_dom (fun d => set_video_callbacks (set_srcObject (Some stream) d)) w
  | _ => with_dom (showError "No video stream received from avatar.") w
  end.

(** [videoElement.onloadedmetadata] *)
Definition on_loadedmetadata (play : PlayOutcome) (w : World) : World :=
  let w' := emit VideoPlay w in
  match play with
  | PlayResolves => with_dom showVideo w'
  | PlayRejects =>
      with_dom (showError
        "Failed to play avatar video. Check browser permissions for autoplay.") w'
  end.

(** [videoElement.onerror] *)
Definition on_video_error (w : World) : World :=
  with_dom (showError "Video stream error.") w.

Definition close_delay : N := 2000.

Definition on_stream_disconnected (w : World) : World :=
  setTimeout CloseWindow close_delay
    (with_dom (showError "Avatar disconnected. Closing...")
       (with_dom (set_srcObject None) w)).

Definition on_error (msg : option string) (w : World) : World :=
  with_dom (showError ("Avatar error: " ++ or_unknown msg)) w.

Definition timeout_text : string :=
  "Connection timeout. The session may have expired or there may be a network issue. Please try restarting the session.".

Definition fire (cb : TimerCallback) (w : World) : World :=
  match cb with
  | ConnectionCheck =>
      match srcObject (dom w) with
      | None => with_dom (showError timeout_text) w
      | Some _ => w
      end
  | CloseWindow => emit WindowClose w
  end.

Definition on_beforeunload (w : World) : World :=
  let w' :=
    match srcObject (dom w) with
    | Some stream =>
        with_dom (set_srcObject None)
          (fold_left (fun u t => emit (TrackStop t) u) (tracks stream) w)
    | None => w
    end in
  match avatar w' with
  | Some _ => set_avatar None w'
  | None => w'
  end.

(** ** The event loop *)

Inductive Event : Type :=
| StreamReady (event : option StreamEvent)
| StreamDisconnected
| AvatarStartTalking
| AvatarStopTalking
| AvatarError (msg : option string)
| LoadedMetadata (play : PlayOutcome)
| VideoError
| BeforeUnload
| Elapse (dt : N).

Definition listening (ev : StreamingEvents) (w : World) : bool :=
  existsb (fun e => match e, ev with
                    | STREAM_READY, STREAM_READY
                    | STREAM_DISCONNECTED, STREAM_DISCONNECTED
                    | AVATAR_START_TALKING, AVATAR_START_TALKING
                    | AVATAR_STOP_TALKING, AVATAR_STOP_TALKING
                    | ERROR, ERROR => true
                    | _, _ => false
                    end) (listeners w).

(** Time passes: the timers that have come due fire, in queue order. *)
Definition elapse (dt : N) (w : World) : World :=
  let t := (now w + dt)%N in
  let ready := filter (fun x => (due x <=? t)%N) (timers w) in
  let later := filter (fun x => negb (due x <=? t)%N) (timers w) in
  fold_left (fun u x => fire (callback x) u) ready (set_timers later t w).

(** One turn of the event loop; an event nobody listens for changes
    nothing. *)
Definition step (e : Event) (w : World) : World :=
  match e with
  | StreamReady event =>
      if listening STREAM_READY w then on_stream_ready event w else w
  | StreamDisconnected =>
      if listening STREAM_DISCONNECTED w then on_stream_disconnected w else w
  | AvatarStartTalking | AvatarStopTalking => w
  | AvatarError msg => if listening ERROR w then on_error msg w else w
  | LoadedMetadata play =>
      if onloadedmetadata (dom w) then on_loadedmetadata play w else w
  | VideoError => if onerror (dom w) then on_video_error w else w
  | BeforeUnload => if beforeunload w then on_beforeunload w else w
  | Elapse dt => elapse dt w
  end.

Definition run (events : list Event) (w : World) : World :=
  fold_left (fun u e => step e u) events w.

(** ** Reading the log *)

(** The tokens the SDK client was constructed with, in order. *)
Fixpoint constructions (l : list Effect) : list value :=
  match l with
  | [] => []
  | NewStreamingAvatar token :: l' => token :: constructions l'
  | _ :: l' => constructions l'
  end.

(** How many times the connection timer was armed. *)
Fixpoint connection_timers_armed (l : list Effect) : nat :=
  match l with
  | [] => O
  | SetTimeout ConnectionCheck _ :: l' => S (connection_timers_armed l')
  | _ :: l' => connection_timers_armed l'
  end.

(** The effects of the handlers, as opposed to those of [main]. *)
Definition handler_effect (e : Effect) : bool :=
  match e with
  | SetTimeout CloseWindow _ | VideoPlay | TrackStop _ | WindowClose => true
  | _ => false
  end.

(** An operation that only appends handler effects to the log. *)
Definition logs_handler_effects (w w' : World) : Prop :=
  exists l, log w' = (log w ++ l)%list /\ forallb handler_effect l = true.

(** How many times [window.close()] was called. *)
Fixpoint closes (l : list Effect) : nat :=
  match l with
  | [] => O
  | WindowClose :: l' => S (closes l')
  | _ :: l' => closes l'
  end.

Definition is_connection_check (x : Timer) : bool :=
  match callback x with
  | ConnectionCheck => true
  | CloseWindow => false
  end.

(** The regions' displays after an operation are the ones before it, or
    those [showVideo] or [showError] leave. *)
Definition display_kept (d d' : Dom) : Prop :=
  ui_state d' = ui_state d \/ ui_state d' = Some Playing \/ ui_state d' = Some Failed.

(** How many effects of a kind the log holds. *)
Definition tally (kind : Effect -> bool) (l : list Effect) : nat :=
  length (filter kind l).

Definition is_fetch (e : Effect) : bool :=
  match e with
  | Fetch _ => true
  | _ => false
  end.

Definition is_fullscreen_request (e : Effect) : bool :=
  match e with
  | RequestFullscreen => true
  | _ => false
  end.

(** The five events [main] registers a handler for, in its order. *)
Definition registered : list StreamingEvents :=
  [STREAM_READY; STREAM_DISCONNECTED; AVATAR_START_TALKING;
   AVATAR_STOP_TALKING; ERROR].

(** The tracks the unload handler has to stop. *)
Definition attached_tracks (d : Dom) : list N :=
  match srcObject d with
  | Some stream => tracks stream
  | None => []
  end.

(** A page as the browser hands it over: no stream on the video element and
    no callback installed. *)
Definition untouched (d : Dom) : Prop :=
  srcObject d = None /\ onloadedmetadata d = false /\ onerror d = false.

(** ** Sample pages, queries and backends *)

Definition blank_page : Dom :=
  {| loading_display := "block"; video_display := "none";
     error_display := "none"; error_textContent := "";
     srcObject := None; onloadedmetadata := false; onerror := false |}.

Definition empty_local_id_query : URLSearchParams :=
  [("local_session_id", ""); ("session_id", "abc")].

Definition backend_down : Env :=
  {| fetch_outcome := FetchRejects (new_Error "Failed to fetch");
     fullscreen_outcome := FullscreenResolves |}.

Definition answer (sessions : option (list Session)) : Env :=
  {| fetch_outcome :=
       FetchResolves {| ok := true; statusText := "OK";
                        json := JsonResolves {| active_sessions := sessions |} |};
     fullscreen_outcome := FullscreenResolves |}.

Definition session_a_no_token : Session :=
  {| local_session_id := VString "a"; session_id := VUndefined;
     access_token := VUndefined |}.

Definition session_a_tok : Session :=
  {| local_session_id := VUndefined; session_id := VString "a";
     access_token := VString "tok" |}.

Definition session_b_tok : Session :=
  {| local_session_id := VString "b"; session_id := VString "hg-b";
     access_token := VString "tok-b" |}.

Definition server_error : Response :=
  {| ok := false; statusText := "Internal Server Error";
     json := JsonResolves {| active_sessions := Some [session_a_tok] |} |}.

Definition backend_failing : Env :=
  {| fetch_outcome := FetchResolves server_error;
     fullscreen_outcome := FullscreenResolves |}.

Definition camera : MediaStream := {| stream_id := 7%N; tracks := [1%N; 2%N] |}.

(** * Properties *)

(** ** Strings *)

Lemma prefix_app (p s : string) :
  String.prefix p s = true <-> exists r, s = p ++ r.
Proof.
  revert s; induction p as [|c p IH]; intros s.
  - split; [intros _; exists s; reflexivity | intros _; destruct s; reflexivity].
  - destruct s as [|c' s]; simpl.
    + split; [discriminate | intros [r Hr]; discriminate].
    + destruct (ascii_dec c c') as [->|Hne].
      * rewrite IH. split; intros [r Hr]; exists r.
        -- now rewrite Hr.
        -- now injection Hr.
      * split; [discriminate | intros [r Hr]; injection Hr; congruence].
Qed.

Lemma includes_unfold (needle hay : string) :
  includes needle hay =
  if String.prefix needle hay then true
  else match hay with
       | EmptyString => false
       | String _ rest => includes needle rest
       end.
Proof. destruct hay; reflexivity. Qed.

(** [includes] finds exactly the substrings. *)
Lemma includes_substring (needle hay : string) :
  includes needle hay = true <-> exists a b, hay = a ++ needle ++ b.
Proof.
  induction hay as [|c hay IH]; rewrite includes_unfold;
    destruct (String.prefix needle _) eqn:Hp.
  - split; [intros _ | reflexivity].
    apply prefix_app in Hp as [r Hr]. now exists "", r.
  - split; [discriminate | intros (a & b & H)].
    destruct a; [|discriminate]. simpl in H.
    assert (String.prefix needle "" = true) by (apply prefix_app; now exists b).
    congruence.
  - split; [intros _ | reflexivity].
    apply prefix_app in Hp as [r Hr]. now exists "", r.
  - rewrite IH. split; intros (a & b & H).
    + exists (String c a), b. simpl. now rewrite H.
    + destruct a as [|c' a]; simpl in H.
      * assert (String.prefix needle (String c hay) = true)
          by (apply prefix_app; now exists b).
        congruence.
      * injection H as _ H. now exists a, b.
Qed.

Lemma strict_eq_string_iff (v : value) (s : string) :
  strict_eq_string v s = true <-> v = VString s.
Proof.
  destruct v; simpl; try (split; [discriminate | intros H; discriminate]).
  rewrite String.eqb_eq. split; [now intros -> | now intros [= ->]].
Qed.

(** ** What each operation does to the page *)

Lemma dom_stop_tracks ts w :
  dom (fold_left (fun u t => emit (TrackStop t) u) ts w) = dom w.
Proof. revert w; induction ts as [|t ts IH]; intros w; simpl; [|rewrite IH]; reflexivity. Qed.

Lemma display_kept_refl d : display_kept d d.
Proof. now left. Qed.

Lemma display_kept_trans d1 d2 d3 :
  display_kept d1 d2 -> display_kept d2 d3 -> display_kept d1 d3.
Proof.
  unfold display_kept. intros H12 [H23|H23]; [rewrite H23; exact H12 | right; exact H23].
Qed.

Lemma display_kept_exclusive d d' :
  display_kept d d' -> ui_state d <> None -> ui_state d' <> None.
Proof. intros [H|[H|H]] Hd; rewrite H; [assumption | discriminate | discriminate]. Qed.

Create HintDb viewer.
#[local] Hint Resolve display_kept_refl : viewer.
#[local] Hint Unfold display_kept : viewer.

Lemma fire_display cb w : display_kept (dom w) (dom (fire cb w)).
Proof.
  destruct cb; simpl; auto with viewer.
  destruct (srcObject (dom w)); simpl; auto with viewer.
Qed.

Lemma fire_all_display q w :
  display_kept (dom w) (dom (fold_left (fun u x => fire (callback x) u) q w)).
Proof.
  revert w; induction q as [|x q IH]; intros w; simpl; auto with viewer.
  eapply display_kept_trans; [apply fire_display | apply IH].
Qed.

Lemma step_display e w : display_kept (dom w) (dom (step e w)).
Proof.
  destruct e; simpl; auto with viewer.
  - destruct (listening STREAM_READY w); auto with viewer.
    destruct event as [[[stream|]]|]; simpl; auto with viewer.
  - destruct (listening STREAM_DISCONNECTED w); simpl; auto with viewer.
  - destruct (listening ERROR w); simpl; auto with viewer.
  - destruct (onloadedmetadata (dom w)); auto with viewer.
    destruct play; simpl; auto with viewer.
  - destruct (onerror (dom w)); simpl; auto with viewer.
  - destruct (beforeunload w); auto with viewer.
    unfold on_beforeunload.
    destruct (srcObject (dom w)) as [stream|]; simpl.
    + destruct (avatar _); simpl; rewrite dom_stop_tracks; auto with viewer.
    + destruct (avatar w); simpl; auto with viewer.
  - unfold elapse. apply (fire_all_display _ (set_timers _ _ w)).
Qed.

Lemma run_display events w : display_kept (dom w) (dom (run events w)).
Proof.
  revert w; induction events as [|e events IH]; intros w; simpl; auto with viewer.
  eapply display_kept_trans; [apply step_display | apply IH].
Qed.

(** [main] leaves the page as it was, or with an error displayed. *)
Lemma main_dom sid env w :
  dom (snd (main sid env w)) = dom w
  \/ exists msg, dom (snd (main sid env w)) = showError msg (dom w).
Proof.
  unfold main, try_catch, main_try, bind, fetch, res_json, requestFullscreen.
  destruct (fetch_outcome env) as [err|res]; simpl; [right; eauto|].
  destruct (ok res); simpl; [|right; eauto].
  destruct (json res) as [err|data]; simpl; [right; eauto|].
  destruct (find_session sid data) as [session|]; simpl; [|right; eauto].
  destruct (truthy (access_token session)); simpl; [|right; eauto].
  destruct (fullscreen_outcome env); simpl; left; reflexivity.
Qed.

Lemma script_display page params env :
  display_kept page (dom (script page params env)).
Proof.
  unfold script.
  destruct (sessionId params) as [sid|]; [destruct (sid =? "")|]; simpl;
    auto with viewer.
  destruct (main_dom sid env (load page)) as [H|[msg H]]; rewrite H; simpl;
    auto with viewer.
Qed.

(** ** The session identifier (C7) *)

(** C7, as stated, fails: on the query [?local_session_id=&session_id=abc]
    the parameter [local_session_id] is present, with the empty value, and
    the identifier used is not that value but the one of [session_id]. *)
Lemma sessionId_present_empty_counterexample :
  get empty_local_id_query "local_session_id" = Some ""
  /\ sessionId empty_local_id_query = Some "abc"
  /\ sessionId empty_local_id_query <> get empty_local_id_query "local_session_id".
Proof. repeat split; discriminate. Qed.

(** C7, amended: the session identifier is the value of [local_session_id]
    when that parameter is present with a non-empty value; when it is absent
    or empty, the identifier is whatever [session_id] yields (its first
    value, or null when it is absent too). *)
Theorem sessionId_first_nonempty (params : URLSearchParams) :
  (forall v, get params "local_session_id" = Some v -> v <> "" ->
             sessionId params = Some v)
  /\ (get params "local_session_id" = None
      \/ get params "local_session_id" = Some "" ->
      sessionId params = get params "session_id").
Proof.
  unfold sessionId. split.
  - intros v -> Hv. simpl. now apply String.eqb_neq in Hv as ->.
  - intros [-> | ->]; reflexivity.
Qed.

Lemma sessionId_first_nonempty_witness :
  sessionId [("session_id", "s-2"); ("local_session_id", "l-1")] = Some "l-1"
  /\ sessionId empty_local_id_query = Some "abc".
Proof.
  split.
  - apply (proj1 (sessionId_first_nonempty _) "l-1"); [reflexivity | discriminate].
  - apply (proj2 (sessionId_first_nonempty empty_local_id_query)).
    right; reflexivity.
Defined.

(** ** The guard (C6) *)

(** C6: on a URL carrying neither [local_session_id] nor [session_id] the
    script displays the missing-identifier error, stops, and has performed
    no effect at all, so no fetch in particular. *)
Theorem no_session_id_no_fetch (page : Dom) (params : URLSearchParams) (env : Env) :
  get params "local_session_id" = None ->
  get params "session_id" = None ->
  let w := script page params env in
  error_textContent (dom w) = "Missing session_id in URL."
  /\ ui_state (dom w) = Some Failed
  /\ log w = []
  /\ (forall url, ~ In (Fetch url) (log w))
  /\ uncaught w = Some (new_Error "Missing session_id").
Proof.
  intros Hl Hs. unfold script, sessionId. rewrite Hl, Hs. simpl.
  repeat split. intros url [].
Qed.

Lemma no_session_id_no_fetch_witness :
  log (script blank_page [("avatar", "x")] backend_down) = [].
Proof.
  apply (no_session_id_no_fetch blank_page [("avatar", "x")] backend_down);
    reflexivity.
Defined.

(** ** The three regions (C9) *)

(** C9: [showVideo] leaves exactly the video surface visible and [showError]
    exactly the error region, whatever the page was; and from a page that
    starts with exactly one region visible, every world the script and the
    event loop reach has exactly one region visible. *)
Theorem one_region_visible :
  (forall d,
     ui_state (showVideo d) = Some Playing
     /\ (visible (loading_display (showVideo d)),
         visible (video_display (showVideo d)),
         visible (error_display (showVideo d))) = (false, true, false))
  /\ (forall msg d,
        ui_state (showError msg d) = Some Failed
        /\ (visible (loading_display (showError msg d)),
            visible (video_display (showError msg d)),
            visible (error_display (showError msg d))) = (false, false, true))
  /\ (forall page params env events,
        ui_state page <> None ->
        ui_state (dom (run events (script page params env))) <> None).
Proof.
  split; [|split].
  - intros d; split; reflexivity.
  - intros msg d; split; reflexivity.
  - intros page params env events.
    apply display_kept_exclusive.
    eapply display_kept_trans; [apply script_display | apply run_display].
Qed.

Lemma one_region_visible_witness :
  ui_state (dom (run [StreamDisconnected; Elapse 2000]
                     (script blank_page [("session_id", "s")] backend_down)))
  <> None.
Proof.
  apply (proj2 (proj2 one_region_visible)). discriminate.
Defined.

(** ** What each operation adds to the log *)

Lemma constructions_app l1 l2 :
  constructions (l1 ++ l2) = (constructions l1 ++ constructions l2)%list.
Proof.
  induction l1 as [|e l1 IH]; simpl; [reflexivity|].
  destruct e; simpl; rewrite IH; reflexivity.
Qed.

Lemma connection_timers_armed_app l1 l2 :
  connection_timers_armed (l1 ++ l2)%list
  = (connection_timers_armed l1 + connection_timers_armed l2)%nat.
Proof.
  induction l1 as [|e l1 IH]; simpl; [reflexivity|].
  destruct e as [| | | |[] ?| | |]; simpl; rewrite IH; reflexivity.
Qed.

Lemma handler_effects_construct_nothing l :
  forallb handler_effect l = true -> constructions l = [].
Proof.
  induction l as [|e l IH]; simpl; [reflexivity|].
  intros [He Hl]%andb_prop. destruct e; try discriminate; auto.
Qed.

Lemma handler_effects_arm_nothing l :
  forallb handler_effect l = true -> connection_timers_armed l = O.
Proof.
  induction l as [|e l IH]; simpl; [reflexivity|].
  intros [He Hl]%andb_prop.
  destruct e as [| | | |[] ?| | |]; try discriminate; auto.
Qed.

Lemma logs_nothing w w' : log w' = log w -> logs_handler_effects w w'.
Proof. intros H. exists []. now rewrite app_nil_r. Qed.

Lemma logs_one e w w' :
  log w' = (log w ++ [e])%list -> handler_effect e = true -> logs_handler_effects w w'.
Proof. intros H He. exists [e]. simpl. now rewrite He. Qed.

Lemma logs_trans w1 w2 w3 :
  logs_handler_effects w1 w2 -> logs_handler_effects w2 w3 ->
  logs_handler_effects w1 w3.
Proof.
  intros (l & Hl & Fl) (l' & Hl' & Fl'). exists (l ++ l')%list.
  rewrite Hl', Hl, app_assoc, forallb_app, Fl, Fl'. now split.
Qed.

Lemma stop_tracks_log ts w :
  logs_handler_effects w (fold_left (fun u t => emit (TrackStop t) u) ts w).
Proof.
  revert w; induction ts as [|t ts IH]; intros w; simpl.
  - now apply logs_nothing.
  - eapply logs_trans; [|apply IH]. now apply (logs_one (TrackStop t)).
Qed.

Lemma fire_log cb w : logs_handler_effects w (fire cb w).
Proof.
  destruct cb; simpl.
  - destruct (srcObject (dom w)); now apply logs_nothing.
  - now apply (logs_one WindowClose).
Qed.

Lemma fire_all_log q w :
  logs_handler_effects w (fold_left (fun u x => fire (callback x) u) q w).
Proof.
  revert w; induction q as [|x q IH]; intros w; simpl.
  - now apply logs_nothing.
  - eapply logs_trans; [apply fire_log | apply IH].
Qed.

Lemma step_log e w : logs_handler_effects w (step e w).
Proof.
  destruct e; simpl; try (now apply logs_nothing).
  - destruct (listening STREAM_READY w); [|now apply logs_nothing].
    destruct event as [[[stream|]]|]; now apply logs_nothing.
  - destruct (listening STREAM_DISCONNECTED w); [|now apply logs_nothing].
    now apply (logs_one (SetTimeout CloseWindow close_delay)).
  - destruct (listening ERROR w); now apply logs_nothing.
  - destruct (onloadedmetadata (dom w)); [|now apply logs_nothing].
    destruct play; now apply (logs_one VideoPlay).
  - destruct (onerror (dom w)); now apply logs_nothing.
  - destruct (beforeunload w); [|now apply logs_nothing].
    unfold on_beforeunload.
    destruct (srcObject (dom w)) as [stream|].
    + eapply logs_trans; [apply (stop_tracks_log (tracks stream))|].
      destruct (avatar _); now apply logs_nothing.
    + destruct (avatar w); now apply logs_nothing.
  - unfold elapse.
    eapply logs_trans; [|apply fire_all_log]. now apply logs_nothing.
Qed.

Lemma run_log events w : logs_handler_effects w (run events w).
Proof.
  revert w; induction events as [|e events IH]; intros w; simpl.
  - now apply logs_nothing.
  - eapply logs_trans; [apply step_log | apply IH].
Qed.

(** The event loop never constructs an SDK client and never arms the
    connection timer. *)
Lemma run_constructions events w :
  constructions (log (run events w)) = constructions (log w).
Proof.
  destruct (run_log events w) as (l & -> & Hl).
  now rewrite constructions_app, (handler_effects_construct_nothing l), app_nil_r.
Qed.

Lemma run_connection_timers events w :
  connection_timers_armed (log (run events w)) = connection_timers_armed (log w).
Proof.
  destruct (run_log events w) as (l & -> & Hl).
  rewrite connection_timers_armed_app, (handler_effects_arm_nothing l); auto.
Qed.

Lemma constructions_none_in l :
  constructions l = [] -> forall token, ~ In (NewStreamingAvatar token) l.
Proof.
  induction l as [|e l IH]; simpl; intros H token; [tauto|].
  destruct e; try discriminate; intros [E|E]; try discriminate;
    now apply (IH H token).
Qed.

(** ** The outcomes of [main] *)

Section Outcomes.

Variables (sid : string) (env : Env) (w : World).
Variables (res : Response) (data : Data).
Hypothesis fetched : fetch_outcome env = FetchResolves res.
Hypothesis res_ok : ok res = true.
Hypothesis parsed : json res = JsonResolves data.

Lemma main_try_not_found :
  find_session sid data = None ->
  main_try sid env w
  = (Throw (new_Error "Session not found in active sessions"),
     emit (Fetch sessions_url) w).
Proof.
  intros H. unfold main_try, bind, fetch, res_json.
  rewrite fetched, res_ok, parsed. simpl. now rewrite H.
Qed.

Lemma main_try_missing_token session :
  find_session sid data = Some session ->
  truthy (access_token session) = false ->
  main_try sid env w
  = (Throw (new_Error "Session found but access_token is missing"),
     emit (Fetch sessions_url) w).
Proof.
  intros H Ht. unfold main_try, bind, fetch, res_json.
  rewrite fetched, res_ok, parsed. simpl. now rewrite H, Ht.
Qed.

Lemma main_try_initialised session :
  find_session sid data = Some session ->
  truthy (access_token session) = true ->
  exists w',
    main_try sid env w = (Normal tt, w')
    /\ dom w' = dom w
    /\ avatar w' = Some (access_token session)
    /\ constructions (log w')
       = (constructions (log w) ++ [access_token session])%list
    /\ connection_timers_armed (log w') = S (connection_timers_armed (log w))
    /\ timers w'
       = enqueue {| due := (now w + connection_window)%N;
                    callback := ConnectionCheck |} (timers w)
    /\ now w' = now w
    /\ listeners w'
       = (listeners w ++ [STREAM_READY; STREAM_DISCONNECTED;
                          AVATAR_START_TALKING; AVATAR_STOP_TALKING; ERROR])%list.
Proof.
  intros H Ht. unfold main_try, bind, fetch, res_json.
  rewrite fetched, res_ok, parsed. simpl. rewrite H, Ht. simpl.
  unfold try_catch, requestFullscreen, bind.
  destruct (fullscreen_outcome env); simpl; eexists; (split; [reflexivity|]);
    simpl; rewrite <- ?app_assoc; simpl;
    rewrite ?constructions_app, ?connection_timers_armed_app; simpl;
    repeat split; auto; lia.
Qed.

End Outcomes.

Lemma main_caught sid env w err w1 :
  main_try sid env w = (Throw err, w1) ->
  main sid env w = (Normal tt, with_dom (showError (catch_text err)) w1).
Proof. intros H. unfold main, try_catch. now rewrite H. Qed.

Lemma main_returned sid env w w1 :
  main_try sid env w = (Normal tt, w1) -> main sid env w = (Normal tt, w1).
Proof. intros H. unfold main, try_catch. now rewrite H. Qed.

Lemma script_runs_main page params env sid :
  sessionId params = Some sid -> sid <> "" ->
  script page params env = set_beforeunload (snd (main sid env (load page))).
Proof.
  intros H Hs. unfold script. rewrite H.
  now apply String.eqb_neq in Hs as ->.
Qed.

Lemma find_nobody {A} (f : A -> bool) l :
  (forall x, In x l -> f x = false) -> find f l = None.
Proof.
  induction l as [|x l IH]; simpl; intros H; [reflexivity|].
  rewrite (H x (or_introl eq_refl)). apply IH. intros y Hy. apply H. now right.
Qed.

Lemma append_empty_r s : s ++ "" = s.
Proof. induction s; simpl; congruence. Qed.

(** ** The [catch] block (C10) *)

(** C10: whatever [main] throws is displayed by the [catch] block, and the
    text depends on the error's message alone: the server hint when the
    message contains [fetch]; otherwise the generic text, ending in the
    message (in [Unknown error] when the message is empty or undefined) and
    so containing it. *)
Theorem catch_text_by_message sid env w err w1 :
  main_try sid env w = (Throw err, w1) ->
  let d := dom (snd (main sid env w)) in
  d = showError (catch_text err) (dom w1)
  /\ ui_state d = Some Failed
  /\ match message err with
     | Some m =>
         ((exists a b, m = a ++ "fetch" ++ b) ->
          error_textContent d = server_hint)
         /\ (~ (exists a b, m = a ++ "fetch" ++ b) ->
             error_textContent d
             = "Failed to initialize avatar: "
               ++ (if m =? "" then "Unknown error" else m)
             /\ exists a b, error_textContent d = a ++ m ++ b)
     | None => error_textContent d = "Failed to initialize avatar: Unknown error"
     end.
Proof.
  intros H. rewrite (main_caught _ _ _ _ _ H).
  cbn [snd dom with_dom showError error_textContent].
  split; [reflexivity|]. split; [reflexivity|].
  unfold catch_text. destruct (message err) as [m|]; [|reflexivity].
  split.
  - intros Hin. apply includes_substring in Hin. now rewrite Hin.
  - intros Hout. destruct (includes "fetch" m) eqn:Hi.
    + exfalso. apply Hout. now apply includes_substring.
    + unfold or_unknown, or_else. split; [now destruct (m =? "")|].
      destruct (m =? "") eqn:Hm.
      * apply String.eqb_eq in Hm as ->.
        exists "Failed to initialize avatar: Unknown error", "". reflexivity.
      * exists "Failed to initialize avatar: ", "".
        now rewrite append_empty_r.
Qed.

Lemma catch_text_by_message_witness :
  error_textContent
    (dom (snd (main "s" backend_down (load blank_page)))) = server_hint.
Proof.
  pose proof (catch_text_by_message "s" backend_down (load blank_page)
                (new_Error "Failed to fetch")
                (emit (Fetch sessions_url) (load blank_page)) eq_refl) as H.
  apply H. exists "Failed to ", "". reflexivity.
Defined.

(** ** Looking the session up (C3, C4, C5) *)

Section Lookup.

Variables (page : Dom) (params : URLSearchParams) (env : Env).
Variables (sid : string) (res : Response) (data : Data).
Hypothesis identified : sessionId params = Some sid.
Hypothesis nonempty : sid <> "".
Hypothesis fetched : fetch_outcome env = FetchResolves res.
Hypothesis res_ok : ok res = true.
Hypothesis parsed : json res = JsonResolves data.

(** C4: when the response has no [active_sessions], or none of its records
    carries the identifier under [local_session_id] or [session_id], the
    viewer displays the not-found error, and no SDK client is constructed,
    then or at any later event. *)
Theorem session_not_found :
  (active_sessions data = None
   \/ exists sessions,
       active_sessions data = Some sessions
       /\ forall s, In s sessions ->
                    local_session_id s <> VString sid
                    /\ session_id s <> VString sid) ->
  let w := script page params env in
  error_textContent (dom w)
  = "Failed to initialize avatar: Session not found in active sessions"
  /\ ui_state (dom w) = Some Failed
  /\ avatar w = None
  /\ forall events token,
       ~ In (NewStreamingAvatar token) (log (run events w)).
Proof.
  intros Hnone.
  assert (Hfind : find_session sid data = None).
  { unfold find_session. destruct Hnone as [-> | (sessions & -> & Hno)].
    - reflexivity.
    - apply find_nobody. intros s Hs. destruct (Hno s Hs) as [Hl Hr].
      unfold is_session. apply orb_false_intro.
      + destruct (strict_eq_string (local_session_id s) sid) eqn:E; auto.
        now apply strict_eq_string_iff in E.
      + destruct (strict_eq_string (session_id s) sid) eqn:E; auto.
        now apply strict_eq_string_iff in E. }
  simpl. rewrite (script_runs_main _ _ _ _ identified nonempty).
  rewrite (main_caught _ _ _ _ _
             (main_try_not_found sid env (load page) res data
                fetched res_ok parsed Hfind)).
  repeat split.
  intros events token. apply constructions_none_in.
  now rewrite run_constructions.
Qed.

(** C5: when the record found for the identifier has no access token (the
    field is absent, empty, or otherwise falsy), the viewer displays the
    missing-token error, and no SDK client is constructed, then or at any
    later event. *)
Theorem session_without_token sessions session :
  active_sessions data = Some sessions ->
  find (is_session sid) sessions = Some session ->
  truthy (access_token session) = false ->
  let w := script page params env in
  error_textContent (dom w)
  = "Failed to initialize avatar: Session found but access_token is missing"
  /\ ui_state (dom w) = Some Failed
  /\ avatar w = None
  /\ forall events token,
       ~ In (NewStreamingAvatar token) (log (run events w)).
Proof.
  intros Hsessions Hfound Hfalsy.
  assert (Hfind : find_session sid data = Some session)
    by (unfold find_session; now rewrite Hsessions).
  simpl. rewrite (script_runs_main _ _ _ _ identified nonempty).
  rewrite (main_caught _ _ _ _ _
             (main_try_missing_token sid env (load page) res data
                fetched res_ok parsed session Hfind Hfalsy)).
  repeat split.
  intros events token. apply constructions_none_in.
  now rewrite run_constructions.
Qed.

(** C3, amended: when the first record of the list that carries the
    identifier (under either alias) has a non-empty access token, the
    viewer constructs the SDK client exactly once, with that record's
    token, and no event afterwards constructs another. *)
Theorem client_constructed_once sessions session :
  active_sessions data = Some sessions ->
  find (is_session sid) sessions = Some session ->
  truthy (access_token session) = true ->
  let w := script page params env in
  avatar w = Some (access_token session)
  /\ forall events,
       constructions (log (run events w)) = [access_token session].
Proof.
  intros Hsessions Hfound Htruthy.
  assert (Hfind : find_session sid data = Some session)
    by (unfold find_session; now rewrite Hsessions).
  simpl. rewrite (script_runs_main _ _ _ _ identified nonempty).
  destruct (main_try_initialised sid env (load page) res data
              fetched res_ok parsed session Hfind Htruthy)
    as (w' & Hrun & _ & Hav & Hcons & _).
  rewrite (main_returned _ _ _ _ Hrun). simpl. split; [exact Hav|].
  intros events. rewrite run_constructions. exact Hcons.
Qed.

End Lookup.

Lemma session_not_found_witness :
  error_textContent
    (dom (script blank_page [("session_id", "a")] (answer (Some [session_b_tok]))))
  = "Failed to initialize avatar: Session not found in active sessions".
Proof.
  apply (session_not_found blank_page [("session_id", "a")]
           (answer (Some [session_b_tok])) "a" _ _
           eq_refl ltac:(discriminate) eq_refl eq_refl eq_refl).
  right. exists [session_b_tok]. split; [reflexivity|].
  intros s [<-|[]]. split; discriminate.
Defined.

Lemma session_without_token_witness :
  error_textContent
    (dom (script blank_page [("local_session_id", "a")]
            (answer (Some [session_b_tok; session_a_no_token]))))
  = "Failed to initialize avatar: Session found but access_token is missing".
Proof.
  apply (session_without_token blank_page [("local_session_id", "a")]
           (answer (Some [session_b_tok; session_a_no_token])) "a" _ _
           eq_refl ltac:(discriminate) eq_refl eq_refl eq_refl
           [session_b_tok; session_a_no_token] session_a_no_token
           eq_refl eq_refl eq_refl).
Defined.

Lemma client_constructed_once_witness :
  constructions
    (log (run [StreamDisconnected; Elapse 2000]
            (script blank_page [("session_id", "a")]
               (answer (Some [session_b_tok; session_a_tok])))))
  = [VString "tok"].
Proof.
  apply (client_constructed_once blank_page [("session_id", "a")]
           (answer (Some [session_b_tok; session_a_tok])) "a" _ _
           eq_refl ltac:(discriminate) eq_refl eq_refl eq_refl
           [session_b_tok; session_a_tok] session_a_tok
           eq_refl eq_refl eq_refl).
Defined.

(** C3, as stated, fails: this list contains a record that matches the
    identifier and carries a token, behind one that matches and carries
    none; the lookup stops at the first, and no client is constructed. *)
Lemma token_behind_tokenless_counterexample :
  let sessions := [session_a_no_token; session_a_tok] in
  let w := script blank_page [("session_id", "a")] (answer (Some sessions)) in
  (exists s, In s sessions /\ is_session "a" s = true
             /\ truthy (access_token s) = true)
  /\ constructions (log w) = []
  /\ avatar w = None
  /\ error_textContent (dom w)
     = "Failed to initialize avatar: Session found but access_token is missing".
Proof.
  simpl. split; [|repeat split].
  exists session_a_tok. repeat split. right; left; reflexivity.
Qed.

(** ** Timers *)

Lemma enqueue_in t q : In t (enqueue t q).
Proof.
  induction q as [|u q IH]; simpl; [now left|].
  destruct (due u <=? due t)%N; simpl; auto.
Qed.

Lemma enqueue_keeps t q x : In x q -> In x (enqueue t q).
Proof.
  induction q as [|u q IH]; simpl; [tauto|].
  destruct (due u <=? due t)%N; simpl; intros [H|H]; auto.
Qed.

Lemma fire_all_timers q w :
  timers (fold_left (fun u x => fire (callback x) u) q w) = timers w
  /\ now (fold_left (fun u x => fire (callback x) u) q w) = now w.
Proof.
  revert w; induction q as [|x q IH]; intros w; simpl; [now split|].
  destruct (IH (fire (callback x) w)) as [Ht Hn]. rewrite Ht, Hn.
  destruct (callback x); simpl; [destruct (srcObject (dom w))|]; now split.
Qed.

Lemma closes_app l1 l2 : closes (l1 ++ l2) = (closes l1 + closes l2)%nat.
Proof.
  induction l1 as [|e l1 IH]; simpl; [reflexivity|].
  destruct e; simpl; rewrite IH; reflexivity.
Qed.

Lemma fire_closes cb w : (closes (log w) <= closes (log (fire cb w)))%nat.
Proof.
  destruct cb; simpl.
  - destruct (srcObject (dom w)); simpl; lia.
  - rewrite closes_app. simpl. lia.
Qed.

Lemma fire_all_closes_mono q w :
  (closes (log w)
   <= closes (log (fold_left (fun u x => fire (callback x) u) q w)))%nat.
Proof.
  revert w; induction q as [|x q IH]; intros w; simpl; [lia|].
  etransitivity; [apply (fire_closes (callback x)) | apply IH].
Qed.

(** Firing a queue that holds a close timer calls [window.close()]. *)
Lemma fire_all_closes q w x :
  In x q -> callback x = CloseWindow ->
  (closes (log w)
   < closes (log (fold_left (fun u x => fire (callback x) u) q w)))%nat.
Proof.
  revert w; induction q as [|y q IH]; intros w; simpl; [tauto|].
  intros [->|Hin] Hx.
  - rewrite Hx. simpl.
    eapply Nat.lt_le_trans; [|apply fire_all_closes_mono].
    simpl. rewrite closes_app. simpl. lia.
  - eapply Nat.le_lt_trans; [apply (fire_closes (callback y)) | now apply IH].
Qed.

(** Firing a queue on a page without a stream: the timeout error is
    displayed when the queue holds the connection check, and nothing changes
    on the page when it does not. *)
Lemma fire_all_connection_check q w :
  srcObject (dom w) = None ->
  dom (fold_left (fun u x => fire (callback x) u) q w)
  = if existsb is_connection_check q
    then showError timeout_text (dom w)
    else dom w.
Proof.
  revert w; induction q as [|x q IH]; intros w Hsrc; simpl; [reflexivity|].
  unfold is_connection_check at 1. destruct (callback x); simpl.
  - rewrite Hsrc. rewrite IH by exact Hsrc. simpl.
    now destruct (existsb is_connection_check q).
  - now rewrite IH.
Qed.

(** ** Stream ready (C1) *)

(** C1, as stated, fails: after a successful start on a page showing the
    loading region, handling a stream-ready event that carries a stream
    attaches the stream and leaves the video surface hidden and the loading
    region visible. *)
Lemma stream_ready_keeps_loading_counterexample :
  let w := script blank_page [("session_id", "a")]
             (answer (Some [session_a_tok])) in
  let w' := step (StreamReady (Some {| detail := Some camera |})) w in
  listening STREAM_READY w = true
  /\ srcObject (dom w') = Some camera
  /\ visible (video_display (dom w')) = false
  /\ visible (loading_display (dom w')) = true.
Proof. repeat split. Qed.

(** C1, amended: handling a stream-ready event that carries a stream
    attaches the stream to the video surface and installs the two video
    callbacks, and changes the display of no region. The video surface
    becomes the one visible region when the metadata callback then runs and
    [play()] resolves; when [play()] rejects, the error region does. *)
Theorem stream_ready_attaches (w : World) (stream : MediaStream) :
  listening STREAM_READY w = true ->
  let w1 := step (StreamReady (Some {| detail := Some stream |})) w in
  srcObject (dom w1) = Some stream
  /\ onloadedmetadata (dom w1) = true
  /\ onerror (dom w1) = true
  /\ loading_display (dom w1) = loading_display (dom w)
  /\ video_display (dom w1) = video_display (dom w)
  /\ error_display (dom w1) = error_display (dom w)
  /\ ui_state (dom (step (LoadedMetadata PlayResolves) w1)) = Some Playing
  /\ ui_state (dom (step (LoadedMetadata PlayRejects) w1)) = Some Failed.
Proof.
  intros H. simpl. rewrite H. simpl. repeat split.
Qed.

Lemma stream_ready_attaches_witness :
  ui_state
    (dom (run [StreamReady (Some {| detail := Some camera |});
               LoadedMetadata PlayResolves]
            (script blank_page [("session_id", "a")]
               (answer (Some [session_a_tok])))))
  = Some Playing.
Proof.
  apply (stream_ready_attaches
           (script blank_page [("session_id", "a")]
              (answer (Some [session_a_tok]))) camera eq_refl).
Defined.

(** ** Stream disconnected (C8) *)

(** C8: handling a stream-disconnected event detaches the stream, displays
    the disconnect message in the error region, and arms a timer that calls
    [window.close()] once 2000 ms have passed, not before. *)
Theorem stream_disconnected_closes (w : World) :
  listening STREAM_DISCONNECTED w = true ->
  let w' := step StreamDisconnected w in
  let closing := {| due := (now w + 2000)%N; callback := CloseWindow |} in
  srcObject (dom w') = None
  /\ error_textContent (dom w') = "Avatar disconnected. Closing..."
  /\ ui_state (dom w') = Some Failed
  /\ log w' = (log w ++ [SetTimeout CloseWindow 2000])%list
  /\ In closing (timers w')
  /\ (forall dt, (dt < 2000)%N ->
        In closing (timers (step (Elapse dt) w')))
  /\ (forall dt, (2000 <= dt)%N ->
        (closes (log w') < closes (log (step (Elapse dt) w')))%nat).
Proof.
  intros H. simpl. rewrite H.
  assert (Hin : In {| due := (now w + 2000)%N; callback := CloseWindow |}
                  (timers (on_stream_disconnected w))) by apply enqueue_in.
  repeat split; try assumption.
  - intros dt Hdt. unfold elapse.
    rewrite (proj1 (fire_all_timers _ _)). simpl.
    apply filter_In. split; [exact Hin|]. simpl.
    apply negb_true_iff, N.leb_gt. lia.
  - intros dt Hdt. unfold elapse.
    eapply Nat.le_lt_trans;
      [|eapply (fire_all_closes _ _ {| due := (now w + 2000)%N;
                                       callback := CloseWindow |})].
    + apply Nat.le_refl.
    + apply filter_In. split; [exact Hin|]. simpl.
      apply N.leb_le. simpl. lia.
    + reflexivity.
Qed.

Lemma stream_disconnected_closes_witness :
  let w := script blank_page [("session_id", "a")]
             (answer (Some [session_a_tok])) in
  srcObject (dom (step StreamDisconnected w)) = None.
Proof.
  apply (stream_disconnected_closes
           (script blank_page [("session_id", "a")]
              (answer (Some [session_a_tok]))) eq_refl).
Defined.

(** ** The connection timer (C2) *)

Lemma stop_tracks_timers ts w :
  timers (fold_left (fun u t => emit (TrackStop t) u) ts w) = timers w
  /\ now (fold_left (fun u t => emit (TrackStop t) u) ts w) = now w.
Proof.
  revert w; induction ts as [|t ts IH]; intros w; simpl; [now split|].
  destruct (IH (emit (TrackStop t) w)) as [Ht Hn]. now rewrite Ht, Hn.
Qed.

(** Between two lapses of time the clock stands and no pending timer is
    lost. *)
Lemma step_keeps_timers e w :
  (forall dt, e <> Elapse dt) ->
  now (step e w) = now w
  /\ forall x, In x (timers w) -> In x (timers (step e w)).
Proof.
  intros He. destruct e; simpl; try (now split).
  - destruct (listening STREAM_READY w); [|now split].
    destruct event as [[[stream|]]|]; now split.
  - destruct (listening STREAM_DISCONNECTED w); [|now split].
    split; [reflexivity|]. intros x Hx. now apply enqueue_keeps.
  - destruct (listening ERROR w); now split.
  - destruct (onloadedmetadata (dom w)); [|now split].
    destruct play; now split.
  - destruct (onerror (dom w)); now split.
  - destruct (beforeunload w); [|now split].
    unfold on_beforeunload.
    destruct (srcObject (dom w)) as [stream|].
    + destruct (stop_tracks_timers (tracks stream) w) as [Ht Hn].
      destruct (avatar _); simpl; rewrite Ht, Hn; now split.
    + destruct (avatar w); now split.
  - now contradiction (He dt).
Qed.

(** The connection check stays in the queue until the clock reaches its due
    time. *)
Lemma step_keeps_connection_check e w :
  ((now w < connection_window)%N ->
   In {| due := connection_window; callback := ConnectionCheck |} (timers w)) ->
  (now (step e w) < connection_window)%N ->
  In {| due := connection_window; callback := ConnectionCheck |}
     (timers (step e w)).
Proof.
  intros Hw. destruct e as [ev| | | |msg|play| | |dt];
    try (match goal with
         | |- context [step ?e _] =>
             destruct (step_keeps_timers e w) as [Hn Hk]; [discriminate|];
             rewrite Hn; intros Hlt; apply Hk, Hw, Hlt
         end).
  simpl. unfold elapse.
  destruct (fire_all_timers
              (filter (fun x => (due x <=? now w + dt)%N) (timers w))
              (set_timers
                 (filter (fun x => negb (due x <=? now w + dt)%N) (timers w))
                 (now w + dt)%N w)) as [Ht Hn].
  rewrite Ht, Hn. simpl. intros Hlt.
  apply filter_In. split.
  - apply Hw. lia.
  - simpl. apply negb_true_iff, N.leb_gt. exact Hlt.
Qed.

Lemma run_keeps_connection_check events w :
  ((now w < connection_window)%N ->
   In {| due := connection_window; callback := ConnectionCheck |} (timers w)) ->
  (now (run events w) < connection_window)%N ->
  In {| due := connection_window; callback := ConnectionCheck |}
     (timers (run events w)).
Proof.
  revert w; induction events as [|e events IH]; intros w Hw; simpl.
  - exact Hw.
  - apply IH. now apply step_keeps_connection_check.
Qed.

(** How the script leaves the world: without a client and without a timer,
    or with both, the clock at zero. *)
Lemma script_start page params env :
  let w0 := script page params env in
  (avatar w0 = None /\ connection_timers_armed (log w0) = O)
  \/ (avatar w0 <> None
      /\ connection_timers_armed (log w0) = 1%nat
      /\ now w0 = 0%N
      /\ timers w0 = [{| due := connection_window; callback := ConnectionCheck |}]).
Proof.
  unfold script.
  destruct (sessionId params) as [sid|]; [destruct (sid =? "")|]; simpl;
    try (now left).
  unfold main, try_catch, main_try, bind, fetch, res_json, requestFullscreen.
  destruct (fetch_outcome env) as [err|res]; simpl; [now left|].
  destruct (ok res); simpl; [|now left].
  destruct (json res) as [err|data]; simpl; [now left|].
  destruct (find_session sid data) as [session|]; simpl; [|now left].
  destruct (truthy (access_token session)); simpl; [|now left].
  destruct (fullscreen_outcome env); simpl; right;
    (split; [discriminate | repeat split]).
Qed.

(** The script stops at the guard, or [main] fails after its fetch, or
    [main] completes: in each case the whole world is known. *)
Lemma script_cases page params env :
  let w := script page params env in
  (truthy_string (sessionId params) = false
   /\ w = set_uncaught (new_Error "Missing session_id")
            (with_dom (showError "Missing session_id in URL.") (load page)))
  \/ (truthy_string (sessionId params) = true
      /\ exists msg,
          w = set_beforeunload
                (with_dom (showError msg)
                   (emit (Fetch sessions_url) (load page))))
  \/ (truthy_string (sessionId params) = true
      /\ exists token fs,
          (fs = [] \/ fs = [RequestFullscreen])
          /\ dom w = page
          /\ avatar w = Some token
          /\ listeners w = registered
          /\ timers w = [{| due := connection_window;
                            callback := ConnectionCheck |}]
          /\ now w = 0%N
          /\ beforeunload w = true
          /\ uncaught w = None
          /\ log w
             = (Fetch sessions_url :: fs
                ++ [NewStreamingAvatar token; AvatarOn STREAM_READY;
                    AvatarOn STREAM_DISCONNECTED;
                    AvatarOn AVATAR_START_TALKING;
                    AvatarOn AVATAR_STOP_TALKING; AvatarOn ERROR;
                    SetTimeout ConnectionCheck connection_window])%list).
Proof.
  unfold script.
  destruct (sessionId params) as [sid|]; [destruct (sid =? "") eqn:Hsid|];
    simpl; rewrite ?Hsid; simpl; try (now left).
  right.
  unfold main, try_catch, main_try, bind, fetch, res_json, requestFullscreen.
  destruct (fetch_outcome env) as [err|res]; simpl; [left; eauto|].
  destruct (ok res); simpl; [|left; eauto].
  destruct (json res) as [err|data]; simpl; [left; eauto|].
  destruct (find_session sid data) as [session|]; simpl; [|left; eauto].
  destruct (truthy (access_token session)); simpl; [|left; eauto].
  right. split; [reflexivity|]. exists (access_token session).
  destruct (fullscreen_outcome env); simpl;
    [exists [] | exists [RequestFullscreen] | exists [RequestFullscreen]];
    repeat split; auto.
Qed.

(** A world without handlers, timers, client, stream or video callbacks is
    moved by nothing but the clock. *)
Lemma step_inert e u :
  listeners u = [] -> timers u = [] -> avatar u = None -> untouched (dom u) ->
  exists t, step e u = set_timers [] t u.
Proof.
  destruct u as [d a ls bu q t l un]. simpl. intros -> -> -> (Hs & Hm & He).
  destruct e; simpl; rewrite ?Hm, ?He; try (eexists; reflexivity).
  destruct bu; [|eexists; reflexivity].
  unfold on_beforeunload. simpl. rewrite Hs. simpl. eexists; reflexivity.
Qed.

Lemma run_inert events u :
  listeners u = [] -> timers u = [] -> avatar u = None -> untouched (dom u) ->
  exists t, run events u = set_timers [] t u.
Proof.
  revert u; induction events as [|e events IH]; intros u Hl Hq Ha Hd; simpl.
  - exists (now u). destruct u; simpl in *; now subst.
  - destruct (step_inert e u Hl Hq Ha Hd) as [t ->].
    destruct (IH (set_timers [] t u) Hl eq_refl Ha Hd) as [t' ->].
    now exists t'.
Qed.

(** C2, as stated, fails: when the start fails (here the backend lists no
    session), no timer is armed, and once 300000 ms have passed without any
    stream the page still displays the start's error, not the timeout. *)
Lemma failed_start_no_timeout_counterexample :
  let w0 := script blank_page [("session_id", "a")] (answer (Some [])) in
  let w := step (Elapse 300000) w0 in
  srcObject (dom w) = None
  /\ connection_timers_armed (log w) = O
  /\ timers w0 = []
  /\ error_textContent (dom w)
     = "Failed to initialize avatar: Session not found in active sessions"
  /\ error_textContent (dom w) <> timeout_text.
Proof. repeat split. discriminate. Qed.

(** C2, amended: when the start succeeds (the SDK client is constructed),
    the connection timer is armed exactly once, by [main], and no event
    arms it again; and whenever the clock passes 300000 ms with no stream on
    the video surface, the timeout error is displayed, whatever events came
    before, a disconnect or none. When the start fails no connection timer
    is ever armed, and on a page that had no stream and no video callback
    the start's error stays displayed whatever events follow. *)
Theorem connection_timeout_once page params env events :
  let w0 := script page params env in
  let w := run events w0 in
  (avatar w0 <> None ->
   connection_timers_armed (log w) = 1%nat
   /\ forall dt,
        (now w < 300000)%N -> (300000 <= now w + dt)%N ->
        srcObject (dom w) = None ->
        error_textContent (dom (step (Elapse dt) w)) = timeout_text
        /\ ui_state (dom (step (Elapse dt) w)) = Some Failed)
  /\ (avatar w0 = None ->
      connection_timers_armed (log w) = O
      /\ (untouched page ->
          dom w = dom w0
          /\ error_textContent (dom w) = error_textContent (dom w0)
          /\ ui_state (dom w) = Some Failed)).
Proof.
  cbv zeta. rewrite run_connection_timers. split.
  - intros Hsome.
    destruct (script_start page params env)
      as [[Hav _]|(_ & Harm & Hnow & Hq)]; [now contradiction Hsome|].
    split; [exact Harm|].
    intros dt Hlt Hle Hsrc.
    assert (Hin : In {| due := connection_window; callback := ConnectionCheck |}
                    (timers (run events (script page params env)))).
    { apply run_keeps_connection_check; [|exact Hlt].
      intros _. rewrite Hq. now left. }
    simpl. unfold elapse.
    rewrite fire_all_connection_check by exact Hsrc.
    replace (existsb _ _) with true; [now split|].
    symmetry. apply existsb_exists.
    exists {| due := connection_window; callback := ConnectionCheck |}.
    split; [|reflexivity].
    apply filter_In. split; [exact Hin|]. simpl. apply N.leb_le. exact Hle.
  - intros Hnone. split.
    + destruct (script_start page params env)
        as [[_ Harm]|(Hav & _)]; [exact Harm | now contradiction Hav].
    + intros Hpage.
      destruct (script_cases page params env)
        as [[_ Hw]|[[_ [msg Hw]]|[_ (token & fs & _ & _ & Hsome & _)]]];
        [| |congruence];
        rewrite Hw;
        match goal with
        | |- context [run events ?u] =>
            destruct (run_inert events u eq_refl eq_refl eq_refl Hpage)
              as [t ->]
        end; now repeat split.
Qed.

Lemma connection_timeout_once_witness :
  let w := run [AvatarStartTalking; Elapse 1000; AvatarError (Some "x")]
             (script blank_page [("session_id", "a")]
                (answer (Some [session_a_tok]))) in
  let w0 := script blank_page [("session_id", "a")] (answer (Some [])) in
  connection_timers_armed (log w) = 1%nat
  /\ error_textContent (dom (step (Elapse 299000) w)) = timeout_text
  /\ error_textContent (dom (run [VideoError; Elapse 300000] w0))
     = error_textContent (dom w0).
Proof.
  destruct (proj1 (connection_timeout_once blank_page [("session_id", "a")]
                     (answer (Some [session_a_tok]))
                     [AvatarStartTalking; Elapse 1000; AvatarError (Some "x")])
              ltac:(discriminate)) as [Harm Hfire].
  split; [exact Harm|]. split.
  - apply (Hfire 299000%N); [reflexivity | discriminate | reflexivity].
  - apply (proj2 (connection_timeout_once blank_page [("session_id", "a")]
                    (answer (Some [])) [VideoError; Elapse 300000])
             eq_refl).
    now repeat split.
Defined.

(** * Further properties of the script *)

Lemma tally_app kind l1 l2 :
  tally kind (l1 ++ l2) = (tally kind l1 + tally kind l2)%nat.
Proof. unfold tally. now rewrite filter_app, length_app. Qed.

Lemma handler_effects_tally kind l :
  (forall e, handler_effect e = true -> kind e = false) ->
  forallb handler_effect l = true -> tally kind l = O.
Proof.
  intros Hk. unfold tally. induction l as [|e l IH]; simpl; [reflexivity|].
  intros [He Hl]%andb_prop. now rewrite (Hk e He), IH.
Qed.

Lemma run_tally kind events w :
  (forall e, handler_effect e = true -> kind e = false) ->
  tally kind (log (run events w)) = tally kind (log w).
Proof.
  intros Hk. destruct (run_log events w) as (l & -> & Hl).
  rewrite tally_app, (handler_effects_tally kind l Hk Hl). lia.
Qed.

Lemma handlers_never_fetch e : handler_effect e = true -> is_fetch e = false.
Proof. destruct e as [| | | |[] ?| | |]; simpl; congruence. Qed.

Lemma handlers_never_request_fullscreen e :
  handler_effect e = true -> is_fullscreen_request e = false.
Proof. destruct e as [| | | |[] ?| | |]; simpl; congruence. Qed.

(** ** The guard, on empty values *)

(** X1: when each of the two parameters is absent or has the empty string as
    its first value, the script displays the missing-identifier error and
    stops there: no effect is performed, [main] is not called and the unload
    listener is not installed. *)
Theorem empty_session_id_stops page params env :
  (forall v, get params "local_session_id" = Some v -> v = "") ->
  (forall v, get params "session_id" = Some v -> v = "") ->
  let w := script page params env in
  error_textContent (dom w) = "Missing session_id in URL."
  /\ ui_state (dom w) = Some Failed
  /\ uncaught w = Some (new_Error "Missing session_id")
  /\ log w = []
  /\ avatar w = None
  /\ beforeunload w = false.
Proof.
  intros Hl Hs.
  assert (H : truthy_string (sessionId params) = false).
  { unfold sessionId, or_else.
    destruct (get params "local_session_id") as [v|];
      [rewrite (Hl v eq_refl); simpl|];
      (destruct (get params "session_id") as [u|];
       [now rewrite (Hs u eq_refl) | reflexivity]). }
  destruct (script_cases page params env)
    as [[_ ->]|[[Ht _]|[Ht _]]]; [now repeat split | congruence | congruence].
Qed.

Lemma empty_session_id_stops_witness :
  log (script blank_page [("session_id", ""); ("session_id", "late")]
         (answer (Some [session_a_tok]))) = [].
Proof.
  apply (empty_session_id_stops blank_page
           [("session_id", ""); ("session_id", "late")]
           (answer (Some [session_a_tok]))).
  - intros v H; discriminate H.
  - intros v H; now injection H as <-.
Defined.

(** ** One fetch, and no other *)

(** X2: when the query yields a non-empty identifier, the script's first
    effect is a fetch of the sessions endpoint, and no other fetch follows,
    whatever the backend answers and whatever events come afterwards. *)
Theorem one_fetch_first page params env sid events :
  sessionId params = Some sid -> sid <> "" ->
  exists rest,
    log (run events (script page params env))
    = (Fetch sessions_url :: rest)%list
    /\ tally is_fetch rest = O.
Proof.
  intros Hsid Hne.
  assert (Ht : truthy_string (sessionId params) = true).
  { rewrite Hsid. simpl. now apply String.eqb_neq in Hne as ->. }
  destruct (run_log events (script page params env)) as (l & -> & Hl).
  pose proof (handler_effects_tally is_fetch l handlers_never_fetch Hl) as Hz.
  destruct (script_cases page params env)
    as [[Hf _]|[[_ [msg ->]]|[_ (token & fs & Hfs & _ & _ & _ & _ & _ & _ & _ & ->)]]].
  - congruence.
  - exists l. now split.
  - eexists. split; [reflexivity|].
    rewrite tally_app, Hz.
    destruct Hfs as [-> | ->]; reflexivity.
Qed.

Lemma one_fetch_first_witness :
  exists rest,
    log (run [StreamDisconnected; Elapse 5000; BeforeUnload]
           (script blank_page [("session_id", "a")] backend_down))
    = (Fetch sessions_url :: rest)%list
    /\ tally is_fetch rest = O.
Proof.
  apply (one_fetch_first blank_page [("session_id", "a")] backend_down "a");
    [reflexivity | discriminate].
Defined.

(** X12: nothing is done twice. Whatever the query, the backend and the
    events, the log of a page load holds at most one fetch, at most one
    fullscreen request, at most one construction of the SDK client and at
    most one arming of the connection timer. *)
Theorem nothing_retried page params env events :
  let l := log (run events (script page params env)) in
  (tally is_fetch l <= 1)%nat
  /\ (tally is_fullscreen_request l <= 1)%nat
  /\ (length (constructions l) <= 1)%nat
  /\ (connection_timers_armed l <= 1)%nat.
Proof.
  cbv zeta.
  rewrite (run_tally is_fetch _ _ handlers_never_fetch),
    (run_tally is_fullscreen_request _ _ handlers_never_request_fullscreen),
    run_constructions, run_connection_timers.
  destruct (script_cases page params env)
    as [[_ ->]|[[_ [msg ->]]|[_ (token & fs & Hfs & _ & _ & _ & _ & _ & _ & _ & ->)]]];
    unfold tally; simpl; [repeat split; lia | repeat split; lia |].
  destruct Hfs as [-> | ->]; simpl; repeat split; lia.
Qed.

(** ** A response that is not ok *)

(** X3: when the backend answers with a status that is not ok, the body is
    not read: whatever the status text and the body, the server hint is
    displayed (the thrown message itself contains [fetch]), no client is
    constructed, and the fetch is the only effect. *)
Theorem not_ok_shows_server_hint page params env sid res :
  sessionId params = Some sid -> sid <> "" ->
  fetch_outcome env = FetchResolves res ->
  ok res = false ->
  let w := script page params env in
  error_textContent (dom w) = server_hint
  /\ ui_state (dom w) = Some Failed
  /\ avatar w = None
  /\ log w = [Fetch sessions_url].
Proof.
  intros Hsid Hne Hfetch Hok. simpl.
  rewrite (script_runs_main _ _ _ _ Hsid Hne).
  assert (Hthrow : main_try sid env (load page)
                   = (Throw (new_Error ("Failed to fetch sessions: "
                                        ++ statusText res)),
                      emit (Fetch sessions_url) (load page))).
  { unfold main_try, bind, fetch. now rewrite Hfetch, Hok. }
  rewrite (main_caught _ _ _ _ _ Hthrow).
  cbn [snd dom with_dom showError error_textContent set_beforeunload avatar log
       emit load].
  split; [|now repeat split].
  unfold catch_text. cbn [message new_Error].
  replace (includes "fetch" ("Failed to fetch sessions: " ++ statusText res))
    with true; [reflexivity|].
  symmetry. apply includes_substring.
  now exists "Failed to ", (" sessions: " ++ statusText res).
Qed.

Lemma not_ok_shows_server_hint_witness :
  error_textContent
    (dom (script blank_page [("session_id", "a")] backend_failing))
  = server_hint.
Proof.
  apply (not_ok_shows_server_hint blank_page [("session_id", "a")]
           backend_failing "a" server_error);
    [reflexivity | discriminate | reflexivity | reflexivity].
Defined.

(** ** After a failed start *)

(** X4: a failed start is final. When the script ends without an SDK
    client, on a page that had no stream and no video callback, then
    whatever events arrive and however much time passes, the page keeps
    displaying the same error, no effect is performed, no timer is pending
    and no client appears. *)
Theorem failed_start_is_final page params env events :
  untouched page ->
  avatar (script page params env) = None ->
  let w0 := script page params env in
  let w := run events w0 in
  dom w = dom w0
  /\ ui_state (dom w) = Some Failed
  /\ log w = log w0
  /\ timers w = []
  /\ avatar w = None.
Proof.
  intros Hpage Hav. cbv zeta.
  destruct (script_cases page params env)
    as [[_ Hw]|[[_ [msg Hw]]|[_ (token & fs & _ & _ & Hsome & _)]]];
    [| |congruence];
    rewrite Hw;
    match goal with
    | |- context [run events ?u] =>
        destruct (run_inert events u eq_refl eq_refl eq_refl Hpage) as [t ->]
    end; now repeat split.
Qed.

Lemma failed_start_is_final_witness :
  let w0 := script blank_page [("session_id", "a")] backend_down in
  dom (run [StreamReady (Some {| detail := Some camera |});
            LoadedMetadata PlayResolves; Elapse 400000; BeforeUnload] w0)
  = dom w0.
Proof.
  apply (failed_start_is_final blank_page [("session_id", "a")] backend_down).
  - now repeat split.
  - reflexivity.
Defined.

(** ** Fullscreen is best effort *)

(** X5: the outcome of the fullscreen request decides nothing. Two page
    loads that differ only in it (the method missing, the request granted,
    the request rejected) end with the same page, client, handlers, timers
    and uncaught error, and with the same log once the fullscreen request is
    left out of it. *)
Theorem fullscreen_outcome_ignored page params fetched fs1 fs2 :
  let w1 := script page params
              {| fetch_outcome := fetched; fullscreen_outcome := fs1 |} in
  let w2 := script page params
              {| fetch_outcome := fetched; fullscreen_outcome := fs2 |} in
  dom w1 = dom w2
  /\ avatar w1 = avatar w2
  /\ listeners w1 = listeners w2
  /\ timers w1 = timers w2
  /\ uncaught w1 = uncaught w2
  /\ filter (fun e => negb (is_fullscreen_request e)) (log w1)
     = filter (fun e => negb (is_fullscreen_request e)) (log w2).
Proof.
  unfold script.
  destruct (sessionId params) as [sid|]; [destruct (sid =? "")|]; simpl;
    try (now repeat split).
  unfold main, try_catch, main_try, bind, fetch, res_json, requestFullscreen.
  simpl.
  destruct fetched as [err|res]; simpl; [now repeat split|].
  destruct (ok res); simpl; [|now repeat split].
  destruct (json res) as [err|data]; simpl; [now repeat split|].
  destruct (find_session sid data) as [session|]; simpl; [|now repeat split].
  destruct (truthy (access_token session)); simpl; [|now repeat split].
  destruct fs1, fs2; simpl; now repeat split.
Qed.

(** ** A successful start *)

(** X6: a start that constructs the SDK client changes nothing on the page
    (whatever region was visible stays visible until a stream plays or an
    error arrives), registers handlers for exactly the five events, installs
    the unload listener and leaves no uncaught error. *)
Theorem successful_start_keeps_page page params env :
  avatar (script page params env) <> None ->
  let w := script page params env in
  dom w = page
  /\ listeners w = registered
  /\ beforeunload w = true
  /\ uncaught w = None.
Proof.
  intros Hav. cbv zeta.
  destruct (script_cases page params env)
    as [[_ Hw]|[[_ [msg Hw]]|[_ (token & fs & _ & Hd & _ & Hl & _ & _ & Hb & Hu & _)]]].
  - rewrite Hw in Hav. now contradiction Hav.
  - rewrite Hw in Hav. now contradiction Hav.
  - now repeat split.
Qed.

Lemma successful_start_keeps_page_witness :
  dom (script blank_page [("session_id", "a")] (answer (Some [session_a_tok])))
  = blank_page.
Proof.
  apply (successful_start_keeps_page blank_page [("session_id", "a")]
           (answer (Some [session_a_tok]))).
  discriminate.
Defined.

(** ** The other handlers *)

(** X7: a stream-ready event without a stream (no event object, or no
    [detail]) displays the no-stream error and does nothing else: a stream
    attached earlier stays attached, no callback is installed, no timer is
    armed and no effect is performed. *)
Theorem stream_ready_without_stream w event :
  listening STREAM_READY w = true ->
  event = None \/ event = Some {| detail := None |} ->
  let w' := step (StreamReady event) w in
  error_textContent (dom w') = "No video stream received from avatar."
  /\ ui_state (dom w') = Some Failed
  /\ srcObject (dom w') = srcObject (dom w)
  /\ onloadedmetadata (dom w') = onloadedmetadata (dom w)
  /\ onerror (dom w') = onerror (dom w)
  /\ timers w' = timers w
  /\ log w' = log w.
Proof.
  intros H [-> | ->]; simpl; rewrite H; now repeat split.
Qed.

Lemma stream_ready_without_stream_witness :
  let w := script blank_page [("session_id", "a")]
             (answer (Some [session_a_tok])) in
  error_textContent (dom (step (StreamReady (Some {| detail := None |})) w))
  = "No video stream received from avatar.".
Proof.
  apply (stream_ready_without_stream
           (script blank_page [("session_id", "a")]
              (answer (Some [session_a_tok])))
           (Some {| detail := None |}) eq_refl).
  now right.
Defined.

(** X8: the generic error event displays [Avatar error: ] followed by the
    error's message, or by [Unknown error] when the message is undefined or
    empty; it detaches no stream, arms no timer and performs no effect. *)
Theorem avatar_error_displayed w msg :
  listening ERROR w = true ->
  let w' := step (AvatarError msg) w in
  (forall m, msg = Some m -> m <> "" ->
             error_textContent (dom w') = "Avatar error: " ++ m)
  /\ (msg = None \/ msg = Some "" ->
      error_textContent (dom w') = "Avatar error: Unknown error")
  /\ ui_state (dom w') = Some Failed
  /\ srcObject (dom w') = srcObject (dom w)
  /\ timers w' = timers w
  /\ log w' = log w.
Proof.
  intros H. simpl. rewrite H. simpl. repeat split.
  - intros m -> Hm. unfold or_unknown, or_else.
    now apply String.eqb_neq in Hm as ->.
  - intros [-> | ->]; reflexivity.
Qed.

Lemma avatar_error_displayed_witness :
  let w := script blank_page [("session_id", "a")]
             (answer (Some [session_a_tok])) in
  error_textContent (dom (step (AvatarError (Some "quota exceeded")) w))
  = "Avatar error: quota exceeded".
Proof.
  apply (proj1 (avatar_error_displayed
                  (script blank_page [("session_id", "a")]
                     (answer (Some [session_a_tok])))
                  (Some "quota exceeded") eq_refl) "quota exceeded");
    [reflexivity | discriminate].
Defined.

(** ** While a stream is attached *)

Lemma fire_all_attached q w :
  srcObject (dom w) <> None ->
  dom (fold_left (fun u x => fire (callback x) u) q w) = dom w.
Proof.
  revert w; induction q as [|x q IH]; intros w Hs; simpl; [reflexivity|].
  destruct (callback x); simpl.
  - destruct (srcObject (dom w)) eqn:E; [now apply IH; rewrite E|].
    now contradiction Hs.
  - now rewrite IH.
Qed.

Lemma elapse_attached w dt :
  srcObject (dom w) <> None -> dom (elapse dt w) = dom w.
Proof.
  intros H. unfold elapse. now rewrite fire_all_attached.
Qed.

(** X9: with a stream on the video surface the connection check is silent:
    however much time passes and whatever timers fire, the page is left as
    it is. *)
Theorem attached_stream_silences_timers w stream dt :
  srcObject (dom w) = Some stream ->
  dom (step (Elapse dt) w) = dom w.
Proof.
  intros H. simpl. apply elapse_attached. now rewrite H.
Qed.

Lemma attached_stream_silences_timers_witness :
  let w := run [StreamReady (Some {| detail := Some camera |});
                LoadedMetadata PlayResolves]
             (script blank_page [("session_id", "a")]
                (answer (Some [session_a_tok]))) in
  dom (step (Elapse 300000) w) = dom w.
Proof.
  apply (attached_stream_silences_timers _ camera 300000%N). reflexivity.
Defined.

(** X14: only a disconnect or the unload detaches a stream. After any other
    event the video surface still holds the stream it held, or the one a
    stream-ready event has just put in its place. *)
Theorem stream_stays_attached e w stream :
  srcObject (dom w) = Some stream ->
  e <> StreamDisconnected -> e <> BeforeUnload ->
  srcObject (dom (step e w)) = Some stream
  \/ exists stream',
      e = StreamReady (Some {| detail := Some stream' |})
      /\ srcObject (dom (step e w)) = Some stream'.
Proof.
  intros H Hd Hu. destruct e; simpl; try (now left); try congruence.
  - destruct (listening STREAM_READY w); [|now left].
    destruct event as [[[stream'|]]|]; simpl; [right; eauto | now left..].
  - destruct (listening ERROR w); now left.
  - destruct (onloadedmetadata (dom w)); [|now left].
    destruct play; now left.
  - destruct (onerror (dom w)); now left.
  - left. rewrite <- H. f_equal. apply elapse_attached. now rewrite H.
Qed.

Lemma stream_stays_attached_witness :
  let w := step (StreamReady (Some {| detail := Some camera |}))
             (script blank_page [("session_id", "a")]
                (answer (Some [session_a_tok]))) in
  srcObject (dom (step VideoError w)) = Some camera
  \/ exists stream',
      VideoError = StreamReady (Some {| detail := Some stream' |})
      /\ srcObject (dom (step VideoError w)) = Some stream'.
Proof.
  apply (stream_stays_attached VideoError _ camera);
    [reflexivity | discriminate | discriminate].
Defined.

(** ** Unload *)

Lemma stop_tracks_world ts w :
  fold_left (fun u t => emit (TrackStop t) u) ts w
  = {| dom := dom w; avatar := avatar w; listeners := listeners w;
       beforeunload := beforeunload w; timers := timers w; now := now w;
       log := (log w ++ map TrackStop ts)%list; uncaught := uncaught w |}.
Proof.
  revert w; induction ts as [|t ts IH]; intros w; simpl.
  - rewrite app_nil_r. now destruct w.
  - rewrite IH. simpl. now rewrite <- app_assoc.
Qed.

(** X10: the unload handler stops every track of the attached stream, once
    each and in order, detaches the stream and drops the client handle; it
    cancels no timer, removes no handler and changes no region's display or
    text. With no stream attached it stops nothing. *)
Theorem unload_stops_tracks w :
  beforeunload w = true ->
  let w' := step BeforeUnload w in
  srcObject (dom w') = None
  /\ avatar w' = None
  /\ log w' = (log w ++ map TrackStop (attached_tracks (dom w)))%list
  /\ timers w' = timers w
  /\ listeners w' = listeners w
  /\ ui_state (dom w') = ui_state (dom w)
  /\ error_textContent (dom w') = error_textContent (dom w).
Proof.
  intros H. simpl. rewrite H. unfold on_beforeunload, attached_tracks.
  destruct (srcObject (dom w)) as [stream|] eqn:Hs.
  - rewrite stop_tracks_world. simpl.
    destruct (avatar w); simpl; now repeat split.
  - simpl. rewrite app_nil_r.
    destruct (avatar w) eqn:Ha; simpl; now repeat split.
Qed.

Lemma unload_stops_tracks_witness :
  let w := step (StreamReady (Some {| detail := Some camera |}))
             (script blank_page [("session_id", "a")]
                (answer (Some [session_a_tok]))) in
  log (step BeforeUnload w) = (log w ++ [TrackStop 1; TrackStop 2])%list.
Proof.
  apply (unload_stops_tracks
           (step (StreamReady (Some {| detail := Some camera |}))
              (script blank_page [("session_id", "a")]
                 (answer (Some [session_a_tok])))) eq_refl).
Defined.

Lemma on_beforeunload_done u :
  srcObject (dom u) = None -> avatar u = None -> on_beforeunload u = u.
Proof. intros Hs Ha. unfold on_beforeunload. now rewrite Hs, Ha. Qed.

(** X11: unloading twice is unloading once: the second run of the handler
    finds no stream and no client, stops no track again and changes
    nothing. *)
Theorem unload_idempotent w :
  step BeforeUnload (step BeforeUnload w) = step BeforeUnload w.
Proof.
  simpl. destruct (beforeunload w) eqn:H; [|now rewrite H].
  assert (Hb : beforeunload (on_beforeunload w) = true).
  { unfold on_beforeunload.
    destruct (srcObject (dom w)); [rewrite stop_tracks_world|];
      simpl; destruct (avatar w); simpl; exact H. }
  rewrite Hb. apply on_beforeunload_done.
  - unfold on_beforeunload.
    destruct (srcObject (dom w)) eqn:Hs; [rewrite stop_tracks_world|];
      simpl; destruct (avatar w); simpl; auto.
  - unfold on_beforeunload.
    destruct (srcObject (dom w)); [rewrite stop_tracks_world|];
      simpl; destruct (avatar w) eqn:Ha; simpl; auto.
Qed.

(** ** Handlers stay registered *)

Lemma fire_all_listeners q w :
  listeners (fold_left (fun u x => fire (callback x) u) q w) = listeners w.
Proof.
  revert w; induction q as [|x q IH]; intros w; simpl; [reflexivity|].
  rewrite IH. destruct (callback x); simpl; [destruct (srcObject (dom w))|];
    reflexivity.
Qed.

Lemma step_listeners e w : listeners (step e w) = listeners w.
Proof.
  destruct e; simpl; try reflexivity.
  - destruct (listening STREAM_READY w); [|reflexivity].
    now destruct event as [[[stream|]]|].
  - now destruct (listening STREAM_DISCONNECTED w).
  - now destruct (listening ERROR w).
  - destruct (onloadedmetadata (dom w)); [|reflexivity]. now destruct play.
  - now destruct (onerror (dom w)).
  - destruct (beforeunload w); [|reflexivity].
    unfold on_beforeunload.
    destruct (srcObject (dom w)); [rewrite stop_tracks_world|];
      simpl; now destruct (avatar w).
  - unfold elapse. now rewrite fire_all_listeners.
Qed.

Lemma run_listeners events w : listeners (run events w) = listeners w.
Proof.
  revert w; induction events as [|e events IH]; intros w; simpl; [reflexivity|].
  now rewrite IH, step_listeners.
Qed.

(** X13: no error is final after a successful start. The handlers are never
    unregistered, so whatever happened before (a disconnect, the connection
    timeout, an SDK error, a failed playback, the unload), a stream-ready
    event carrying a stream, followed by the metadata callback with a
    [play()] that resolves, attaches that stream and leaves the video
    surface the one visible region. *)
Theorem stream_can_always_resume page params env events stream :
  avatar (script page params env) <> None ->
  let w := run (events
                ++ [StreamReady (Some {| detail := Some stream |});
                    LoadedMetadata PlayResolves])
             (script page params env) in
  ui_state (dom w) = Some Playing
  /\ srcObject (dom w) = Some stream.
Proof.
  intros Hav. cbv zeta. unfold run. rewrite fold_left_app.
  fold (run events (script page params env)).
  assert (Hl : listening STREAM_READY (run events (script page params env))
               = true).
  { unfold listening. rewrite run_listeners.
    destruct (script_cases page params env)
      as [[_ Hw]|[[_ [msg Hw]]|[_ (token & fs & _ & _ & _ & -> & _)]]];
      [rewrite Hw in Hav; now contradiction Hav
      |rewrite Hw in Hav; now contradiction Hav
      |reflexivity]. }
  simpl. rewrite Hl. simpl. now split.
Qed.

Lemma stream_can_always_resume_witness :
  ui_state
    (dom (run ([StreamDisconnected; Elapse 300000; AvatarError None]
               ++ [StreamReady (Some {| detail := Some camera |});
                   LoadedMetadata PlayResolves])
            (script blank_page [("session_id", "a")]
               (answer (Some [session_a_tok])))))
  = Some Playing.
Proof.
  apply (stream_can_always_resume blank_page [("session_id", "a")]
           (answer (Some [session_a_tok]))
           [StreamDisconnected; Elapse 300000; AvatarError None] camera).
  discriminate.
Defined.

(** ** The close is not cancelled *)

Lemma step_closes_mono e w : (closes (log w) <= closes (log (step e w)))%nat.
Proof.
  destruct (step_log e w) as (l & -> & _). rewrite closes_app. lia.
Qed.

(** After a disconnect at clock [t0] with [n] closes so far, the close timer
    is pending and not yet due, or the close has been called. *)
Lemma step_keeps_close e u t0 n :
  (In {| due := (t0 + close_delay)%N; callback := CloseWindow |} (timers u)
   /\ (now u < t0 + close_delay)%N /\ (n <= closes (log u))%nat)
  \/ (n < closes (log u))%nat ->
  (In {| due := (t0 + close_delay)%N; callback := CloseWindow |}
      (timers (step e u))
   /\ (now (step e u) < t0 + close_delay)%N
   /\ (n <= closes (log (step e u)))%nat)
  \/ (n < closes (log (step e u)))%nat.
Proof.
  pose proof (step_closes_mono e u) as Hmono.
  intros [(Hin & Hlt & Hn)|Hn]; [|right; lia].
  destruct e as [ev| | | |msg|play| | |dt];
    try (match goal with
         | |- context [step ?e _] =>
             destruct (step_keeps_timers e u) as [Hnow Hk]; [discriminate|];
             left; rewrite Hnow; repeat split; [now apply Hk | exact Hlt | lia]
         end).
  simpl in *. unfold elapse in *.
  destruct (fire_all_timers
              (filter (fun x => (due x <=? now u + dt)%N) (timers u))
              (set_timers
                 (filter (fun x => negb (due x <=? now u + dt)%N) (timers u))
                 (now u + dt)%N u)) as [Ht Hnw].
  destruct (t0 + close_delay <=? now u + dt)%N eqn:Hdue.
  - right. eapply Nat.le_lt_trans; [exact Hn|].
    apply (fire_all_closes _ (set_timers _ _ u)
             {| due := (t0 + close_delay)%N; callback := CloseWindow |});
      [|reflexivity].
    apply filter_In. split; [exact Hin | exact Hdue].
  - left. rewrite Ht, Hnw. simpl. repeat split.
    + apply filter_In. split; [exact Hin|]. simpl. now rewrite Hdue.
    + now apply N.leb_gt.
    + lia.
Qed.

(** X15: the close armed by a disconnect cannot be cancelled. Whatever
    events follow the disconnect (a new stream that plays, another
    disconnect, the unload), once the clock stands 2000 ms or more past the
    disconnect, [window.close()] has been called since. *)
Theorem close_not_cancelled w events :
  listening STREAM_DISCONNECTED w = true ->
  let u := run events (step StreamDisconnected w) in
  (now w + 2000 <= now u)%N ->
  (closes (log w) < closes (log u))%nat.
Proof.
  intros H. cbv zeta. simpl step. rewrite H.
  assert (Hinv :
    (In {| due := (now w + close_delay)%N; callback := CloseWindow |}
        (timers (run events (on_stream_disconnected w)))
     /\ (now (run events (on_stream_disconnected w)) < now w + close_delay)%N
     /\ (closes (log w) <= closes (log (run events (on_stream_disconnected w))))%nat)
    \/ (closes (log w) < closes (log (run events (on_stream_disconnected w))))%nat).
  { assert (Hstart :
      (In {| due := (now w + close_delay)%N; callback := CloseWindow |}
          (timers (on_stream_disconnected w))
       /\ (now (on_stream_disconnected w) < now w + close_delay)%N
       /\ (closes (log w) <= closes (log (on_stream_disconnected w)))%nat)
      \/ (closes (log w) < closes (log (on_stream_disconnected w)))%nat).
    { left. repeat split.
      - apply enqueue_in.
      - simpl. unfold close_delay. lia.
      - simpl. rewrite closes_app. lia. }
    revert Hstart. generalize (on_stream_disconnected w) as u.
    induction events as [|e events IH]; intros u Hu; simpl; [exact Hu|].
    apply IH. now apply step_keeps_close. }
  intros Hlate. destruct Hinv as [(_ & Hlt & _)|Hdone]; [|exact Hdone].
  unfold close_delay in Hlt. lia.
Qed.

Lemma close_not_cancelled_witness :
  let w := script blank_page [("session_id", "a")]
             (answer (Some [session_a_tok])) in
  (closes (log w)
   < closes (log (run [StreamReady (Some {| detail := Some camera |});
                       LoadedMetadata PlayResolves; Elapse 2500]
                    (step StreamDisconnected w))))%nat.
Proof.
  apply (close_not_cancelled
           (script blank_page [("session_id", "a")]
              (answer (Some [session_a_tok])))
           [StreamReady (Some {| detail := Some camera |});
            LoadedMetadata PlayResolves; Elapse 2500] eq_refl).
  discriminate.
Defined.
